(** * Phoneme to Chakra Story Generator: a shallow embedding of [app.py]

    The development follows the pipeline of the program:
    [normalize_phoneme], [map_phonemes_to_chakras] and [generate_story].
    Python strings are sequences of Unicode code points, the phoneme table is
    a finite map, and the one effect of the program, the HTTP POST of
    [generate_story], is made explicit as the list of requests a call sends. *)

From Stdlib Require Import NArith ZArith QArith String Ascii.
From stdpp Require Import base option list gmap.

Local Open Scope N_scope.

(** ** Python strings *)

(** A [str] is a sequence of code points. *)
Abbreviation codepoint := N (only parsing).
Abbreviation str := (list N) (only parsing).

(** ASCII literals of the source, as code point sequences. *)
Definition lit (s : string) : str :=
  N_of_ascii <$> list_ascii_of_string s.

(** [str.isspace] on one code point: the white space table of CPython
    ([_PyUnicode_IsWhitespace]). *)
Definition isspace (c : codepoint) : bool :=
  ((0x09 <=? c) && (c <=? 0x0D)) || ((0x1C <=? c) && (c <=? 0x20))
  || (c =? 0x85) || (c =? 0xA0) || (c =? 0x1680)
  || ((0x2000 <=? c) && (c <=? 0x200A))
  || (c =? 0x2028) || (c =? 0x2029) || (c =? 0x202F) || (c =? 0x205F)
  || (c =? 0x3000).

(** [s.lstrip()], [s.rstrip()] and [s.strip()] with no argument. *)
Fixpoint lstrip (s : str) : str :=
  match s with
  | [] => []
  | c :: s' => if isspace c then lstrip s' else s
  end.

Definition rstrip (s : str) : str := reverse (lstrip (reverse s)).

Definition strip (s : str) : str := rstrip (lstrip s).

(** [sep.join(parts)]. *)
Fixpoint join (sep : str) (parts : list str) : str :=
  match parts with
  | [] => []
  | [p] => p
  | p :: ps => p ++ sep ++ join sep ps
  end.

(** ** Regular expressions: a character class *)

(** [re.sub] with a pattern that is one character class, [[...]]: the scan
    goes left to right, every code point of the class is one match and is
    replaced by [repl], every other code point is copied. *)
Fixpoint re_sub_class (cls : list codepoint) (repl : str) (s : str) : str :=
  match s with
  | [] => []
  | c :: s' =>
      if bool_decide (c ∈ cls) then repl ++ re_sub_class cls repl s'
      else c :: re_sub_class cls repl s'
  end.

(** ** The phoneme normalizer *)

(** The class of the source pattern: primary stress U+02C8, secondary stress
    U+02CC, length mark U+02D0. *)
Definition primary_stress : codepoint := 0x2C8.
Definition secondary_stress : codepoint := 0x2CC.
Definition length_mark : codepoint := 0x2D0.
Definition marks : list codepoint := [primary_stress; secondary_stress; length_mark].

Definition normalize_phoneme (phoneme : str) : str :=
  strip (re_sub_class marks [] phoneme).

(** ** The chakra mapper *)

(** The category recorded for a phoneme that the table does not know. *)
Definition not_found : str := lit "Not found".

(** One record per phoneme: (phoneme, normalized phoneme, chakra or
    [not_found]). *)
Abbreviation MatchRecord := (list N * list N * list N)%type (only parsing).

(** The body of the loop, on the pair of lists the loop appends to. *)
Definition map_step (phoneme_chakra_map : gmap (list N) (list N))
    (acc : list MatchRecord * list str) (phoneme : str)
    : list MatchRecord * list str :=
  let '(matched_phonemes, chakras) := acc in
  let norm_phoneme := normalize_phoneme phoneme in
  match phoneme_chakra_map !! norm_phoneme with
  | Some chakra =>
      (matched_phonemes ++ [(phoneme, norm_phoneme, chakra)], chakras ++ [chakra])
  | None =>
      (matched_phonemes ++ [(phoneme, norm_phoneme, not_found)], chakras)
  end.

(** [phoneme_chakra_map] is the module-level table of the source, read by the
    function; here it is the first argument. *)
Definition map_phonemes_to_chakras (phoneme_chakra_map : gmap (list N) (list N))
    (phonemes : list str) : list MatchRecord * list str :=
  foldl (map_step phoneme_chakra_map) ([], []) phonemes.

(** ** The story request *)

(** Python values that [response.json()] can yield. *)
#[warnings="-register-all"]
Inductive json : Type :=
| JNull
| JBool (b : bool)
| JNum (q : Q)
| JStr (s : list N)
| JList (l : list json)
| JDict (d : gmap (list N) json).

(** The exceptions the [try] block can meet, all of them subclasses of
    [Exception]. [TransportError] stands for whatever [requests.post] itself
    raises (connection, timeout, ...). *)
Inductive exn : Type :=
| TransportError (detail : str)
| HTTPError (status_code : Z)
| JSONDecodeError
| KeyError (key : json)
| IndexError
| TypeError
| AttributeError.

(** A computation of the [try] block: an exception or a value. *)
Definition outcome (A : Type) : Type := (exn + A)%type.

Definition raise {A} (e : exn) : outcome A := inl e.

#[global] Instance outcome_ret : MRet outcome := λ A a, inr a.

#[global] Instance outcome_bind : MBind outcome := λ A B k m,
  match m with
  | inl e => inl e
  | inr a => k a
  end.

(** [o[key]] with a string key. *)
Definition getitem_str (o : json) (key : str) : outcome json :=
  match o with
  | JDict d =>
      match d !! key with
      | Some v => mret v
      | None => raise (KeyError (JStr key))
      end
  | _ => raise TypeError
  end.

(** [o[0]]. The keys of a decoded JSON object are strings, so a dict has no
    key [0]; a string yields its first character. *)
Definition getitem_0 (o : json) : outcome json :=
  match o with
  | JList (v :: _) => mret v
  | JList [] => raise IndexError
  | JStr (c :: _) => mret (JStr [c])
  | JStr [] => raise IndexError
  | JDict _ => raise (KeyError (JNum 0))
  | _ => raise TypeError
  end.

(** [o.strip()]: only a [str] has the method. *)
Definition call_strip (o : json) : outcome str :=
  match o with
  | JStr s => mret (strip s)
  | _ => raise AttributeError
  end.

(** The request of [requests.post(url, headers=..., json=...)]. *)
Record payload : Type := {
  model : str;
  prompt : str;
  max_tokens : Z;
  temperature : Q
}.

Record request : Type := {
  url : str;
  headers : list (str * str);
  body : payload
}.

(** What comes back: the status line and the decoded body, [None] when the
    body is not JSON. *)
Record response : Type := {
  status_code : Z;
  decoded : option json
}.

(** [response.raise_for_status()] of the requests library: it raises on the
    client and server error classes, 400 to 599. *)
Definition raise_for_status (r : response) : outcome unit :=
  if bool_decide (400 ≤ status_code r < 600)%Z then raise (HTTPError (status_code r))
  else mret tt.

(** [response.json()]. *)
Definition response_json (r : response) : outcome json :=
  match decoded r with
  | Some v => mret v
  | None => raise JSONDecodeError
  end.

(** What the program does not fix: the iteration order of a [set], the
    outcome of the POST, and the text of an exception. A set lists each of
    its elements once, in some order. *)
Record runtime : Type := {
  list_of_set : list str → list str;
  list_of_set_perm : ∀ xs, list_of_set xs ≡ₚ remove_dups xs;
  requests_post : request → outcome response;
  exn_str : exn → str
}.

(** The dict literal [chakra_desc]. *)
Definition chakra_desc : gmap (list N) (list N) :=
  list_to_map [
    (lit "Muladhara", lit "root chakra, symbolizing grounding and stability");
    (lit "Svadhisthana", lit "sacral chakra, representing creativity and emotion");
    (lit "Manipura", lit "solar plexus chakra, embodying power and will");
    (lit "Anahata", lit "heart chakra, signifying love and compassion");
    (lit "Vishuddha", lit "throat chakra, associated with communication and truth");
    (lit "Ajna", lit "third eye chakra, linked to intuition and wisdom");
    (lit "Sahasrara", lit "crown chakra, connecting to divine consciousness")
  ].

(** The literal pieces of the f-string, between its three substitutions. *)
Definition newline : str := [0x0A].

Definition prompt_head : str :=
  newline ++ lit "    Write a mystical story (500-1000 words) set in the ancient Indian mythological age, during the era of gods, sages, and cosmic battles. The story should center on the protagonist, ".

Definition prompt_quest : str :=
  lit ", who embarks on a spiritual quest guided by the chakras: ".

Definition prompt_meaning : str :=
  lit ". Each chakra influences the narrative, reflecting its symbolic meaning (".

Definition prompt_tail : str :=
  lit "). Incorporate Indian mythological elements (e.g., deities like Vishnu, Shiva, or Devi, sacred rivers, or ancient forests). The story should be vivid, enchanting, and deeply spiritual, with a tone of awe and reverence." ++ newline ++ lit "    ".

(** [name or 'a sage']. *)
Definition protagonist (name : str) : str :=
  match name with
  | [] => lit "a sage"
  | _ => name
  end.

(** One element of the comprehension
    [[f'{k}: {chakra_desc[k]}' for k in unique_chakras if k in chakra_desc]]:
    nothing when [k] is not a key. *)
Definition desc_clause (k : str) : option str :=
  match chakra_desc !! k with
  | Some d => Some (k ++ lit ": " ++ d)
  | None => None
  end.

Definition build_prompt (name : str) (unique_chakras : list str) : str :=
  prompt_head ++ protagonist name ++ prompt_quest
  ++ join (lit ", ") unique_chakras ++ prompt_meaning
  ++ join (lit "; ") (omap desc_clause unique_chakras) ++ prompt_tail.

Definition story_request (api_key prompt_text : str) : request :=
  {| url := lit "https://api.x.ai/v1/completions";
     headers := [(lit "Authorization", lit "Bearer " ++ api_key);
                 (lit "Content-Type", lit "application/json")];
     body := {| model := lit "grok-3"; prompt := prompt_text;
                max_tokens := 2000; temperature := 7 # 10 |} |}.

(** The body of the [try] block, after the POST was sent. *)
Definition read_story (posted : outcome response) : outcome str :=
  response ← posted;
  _ ← raise_for_status response;
  data ← response_json response;
  choices ← getitem_str data (lit "choices");
  choice ← getitem_0 choices;
  text ← getitem_str choice (lit "text");
  call_strip text.

(** [generate_story] yields the returned string and the list of the requests
    it sent, in order. *)
Definition generate_story (rt : runtime) (name : str) (chakras : list str)
    (api_key : str) : str * list request :=
  match chakras with
  | [] => (lit "No chakras found to generate a story.", [])
  | _ =>
      match api_key with
      | [] => (lit "Please provide a valid xAI API key.", [])
      | _ =>
          let unique_chakras := list_of_set rt chakras in
          let req := story_request api_key (build_prompt name unique_chakras) in
          match read_story (requests_post rt req) with
          | inr story => (story, [req])
          | inl e => (lit "Error generating story: " ++ exn_str rt e, [req])
          end
      end
  end.

(** A runtime whose sets list their elements in order of first insertion and
    whose server is described by [served]. *)
Definition runtime_of (served : request → outcome response) (msg : exn → str) : runtime :=
  {| list_of_set := remove_dups;
     list_of_set_perm := λ xs, reflexivity (remove_dups xs);
     requests_post := served;
     exn_str := msg |}.

(** ** Notions used in the statements *)

(** Does the string start, or end, with a white space character? *)
Definition starts_space (s : str) : bool := from_option isspace false (head s).
Definition ends_space (s : str) : bool := from_option isspace false (last s).

(** A symbol is clean when it holds none of the three marks and neither
    starts nor ends with white space. *)
Definition clean (s : str) : bool :=
  forallb (λ c, negb (bool_decide (c ∈ marks))) s
  && negb (starts_space s) && negb (ends_space s).

(** The record the loop appends for one phoneme. *)
Definition record_of (m : gmap (list N) (list N)) (phoneme : str) : MatchRecord :=
  (phoneme, normalize_phoneme phoneme,
   default not_found (m !! normalize_phoneme phoneme)).

Definition Muladhara : str := lit "Muladhara".
Definition Manipura : str := lit "Manipura".
Definition Vishuddha : str := lit "Vishuddha".
Definition Anahata : str := lit "Anahata".

(** The phonemes m, U+0251 U+02D0, h, U+0251 U+02D0, n. *)
Definition mahaan : list str :=
  [lit "m"; [0x251; length_mark]; lit "h"; [0x251; length_mark]; lit "n"].

Definition mahaan_map : gmap (list N) (list N) :=
  list_to_map [(lit "m", Muladhara); ([0x251], Manipura);
               (lit "h", Vishuddha); (lit "n", Anahata)].

Definition error_prefix : str := lit "Error generating story: ".

(** The request that a call sends once both guards are passed. *)
Definition request_of (rt : runtime) (name : str) (chakras : list str)
    (api_key : str) : request :=
  story_request api_key (build_prompt name (list_of_set rt chakras)).

(** A server that is never reached in the runs below, and an exception text. *)
Definition unreachable_server : request → outcome response :=
  λ _, raise (TransportError (lit "connection refused")).

Definition exn_text (e : exn) : str :=
  match e with
  | TransportError detail => detail
  | _ => lit "error"
  end.

(** A decoded body is well formed, with story text [text], when it is an
    object whose ["choices"] is a list that starts with an object whose
    ["text"] is the string [text]. *)
Definition well_formed (v : json) (text : str) : Prop :=
  ∃ (d c : gmap (list N) json) (others : list json),
    v = JDict d
    ∧ d !! lit "choices" = Some (JList (JDict c :: others))
    ∧ c !! lit "text" = Some (JStr text).

(** The status codes on which [raise_for_status] raises. *)
Definition error_status (code : Z) : Prop := (400 ≤ code < 600)%Z.

(** After a status that passes, the result depends on the decoded body only. *)
Definition read_body (r : response) : outcome str :=
  data ← response_json r;
  choices ← getitem_str data (lit "choices");
  choice ← getitem_0 choices;
  text ← getitem_str choice (lit "text");
  call_strip text.

(** The body [{"choices": [{"text": " Once upon a time. "}]}]. *)
Definition story_choice : gmap (list N) json :=
  {[ lit "text" := JStr (lit " Once upon a time. ") ]}.

Definition story_object : gmap (list N) json :=
  {[ lit "choices" := JList [JDict story_choice] ]}.

(** A server that answers 200 with that body, and one that answers 300
    (Multiple Choices) with it. *)
Definition story_server : request → outcome response :=
  λ _, mret {| status_code := 200; decoded := Some (JDict story_object) |}.

Definition multiple_choices_server : request → outcome response :=
  λ _, mret {| status_code := 300; decoded := Some (JDict story_object) |}.

(** The seven names of the description table, in the order of the source. *)
Definition seven_chakras : list str :=
  [lit "Muladhara"; lit "Svadhisthana"; lit "Manipura"; lit "Anahata";
   lit "Vishuddha"; lit "Ajna"; lit "Sahasrara"].

(** The clause of a chakra that has a description. *)
Definition clause_of (k : str) : str :=
  k ++ lit ": " ++ default [] (chakra_desc !! k).

(** ** The rest of the script: loading, extraction and the page *)

(** What the script puts on the page, one constructor per Streamlit call;
    the text input and the button are inputs of the run, not output. *)
Inductive ui : Type :=
| st_spinner (label : str)
| st_subheader (text : str)
| st_write (text : str)
| st_warning (text : str)
| st_error (text : str)
| st_markdown (text : str).

(** [s.split()] with no argument: the words between runs of white space,
    read in one pass from left to right; [word] is the word read so far. *)
Fixpoint split_from (word : str) (s : str) : list str :=
  match s with
  | [] => match word with [] => [] | _ => [word] end
  | c :: s' =>
      if isspace c then
        match word with
        | [] => split_from [] s'
        | _ => word :: split_from [] s'
        end
      else split_from (word ++ [c]) s'
  end.

Definition split (s : str) : list str := split_from [] s.

(** The outcome of the two lines in the [try] of [load_phoneme_data]: the
    file is missing, something else is raised (and is not caught), or the
    dict of the two columns is built. *)
Inductive csv_result : Type :=
| FileNotFoundError
| CsvFailure (detail : str)
| CsvTable (table : gmap (list N) (list N)).

(** [load_phoneme_data]: the table, or the exception that escapes, and what
    is shown. *)
Definition load_phoneme_data (csv : csv_result)
    : (str + gmap (list N) (list N)) * list ui :=
  match csv with
  | CsvTable table => (inr table, [])
  | FileNotFoundError =>
      (inr ∅,
       [st_error (lit "phoneme_chakra_mapping.csv not found. Ensure it's in the repository.")])
  | CsvFailure detail => (inl detail, [])
  end.

(** The outcome of the backend and [phonemize] calls of [get_phonemes]: an
    exception, given by its text, or the transcription. *)
Inductive phonemized : Type :=
| PhonemizeError (text : str)
| Phonemized (phonemes : str).

(** [get_phonemes]: the phoneme list and what is shown. *)
Definition get_phonemes (phonemize : str → phonemized) (name : str)
    : list str * list ui :=
  match phonemize name with
  | Phonemized phonemes => (split phonemes, [])
  | PhonemizeError e => ([], [st_error (lit "Error extracting phonemes: " ++ e)])
  end.

(** The line written for one record; U+2192 is the arrow of the source. *)
Definition mapping_line (r : MatchRecord) : ui :=
  let '(phoneme, norm_phoneme, chakra) := r in
  st_write (lit "Phoneme: " ++ phoneme ++ lit " (Normalized: " ++ norm_phoneme
         ++ lit ") " ++ [0x2192] ++ lit " Chakra: " ++ chakra).

Definition no_phonemes_message : str :=
  lit "Could not extract phonemes. Please try another name.".

Definition no_match_message : str :=
  lit "No chakras matched. Story generation may be limited.".

(** The last block of the script, [if st.button("Generate Story") and name:],
    for one run: [clicked] is what the button returns, [name] the text
    input, [api_key] the secret, [phoneme_chakra_map] the loaded table. The
    result is the page output in order and the requests sent. *)
Definition process_input (rt : runtime) (phonemize : str → phonemized)
    (phoneme_chakra_map : gmap (list N) (list N)) (api_key : str)
    (clicked : bool) (name : str) : list ui * list request :=
  if clicked && negb (bool_decide (name = [])) then
    let '(phonemes, shown) := get_phonemes phonemize name in
    match phonemes with
    | [] =>
        (st_spinner (lit "Processing...") :: shown ++ [st_error no_phonemes_message],
         [])
    | _ =>
        let '(matched_phonemes, chakras) :=
          map_phonemes_to_chakras phoneme_chakra_map phonemes in
        let '(story, sent) := generate_story rt name chakras api_key in
        (st_spinner (lit "Processing...") :: shown
         ++ [st_subheader (lit "Phonemes Extracted");
             st_write (join (lit ", ") phonemes);
             st_subheader (lit "Phoneme to Chakra Mapping")]
         ++ (mapping_line <$> matched_phonemes)
         ++ [st_subheader (lit "Associated Chakras");
             match chakras with
             | [] => st_warning no_match_message
             | _ => st_write (join (lit ", ") chakras)
             end;
             st_subheader (lit "Mystical Story");
             st_markdown story],
         sent)
    end
  else ([], []).

(** A code point that is no white space, and one that is none of the three
    marks. *)
Definition nonspace (c : codepoint) : Prop := isspace c = false.
Definition unmarked (c : codepoint) : Prop := c ∉ marks.

(** A word: not empty, no white space in it. *)
Definition is_word (w : str) : Prop := w ≠ [] ∧ Forall nonspace w.

(** A transcription backend that answers with a fixed outcome. *)
Definition fixed_backend (answer : phonemized) : str → phonemized := λ _, answer.

(** The page of a run whose extraction gave phonemes, as [process_input]
    lays it out. *)
Definition story_page (phonemes : list str) (matched_phonemes : list MatchRecord)
    (chakras : list str) (story : str) : list ui :=
  st_spinner (lit "Processing...")
  :: [st_subheader (lit "Phonemes Extracted");
      st_write (join (lit ", ") phonemes);
      st_subheader (lit "Phoneme to Chakra Mapping")]
  ++ (mapping_line <$> matched_phonemes)
  ++ [st_subheader (lit "Associated Chakras");
      match chakras with
      | [] => st_warning no_match_message
      | _ => st_write (join (lit ", ") chakras)
      end;
      st_subheader (lit "Mystical Story");
      st_markdown story].

(** The elements of a page that are messages: warnings, errors and the
    story. *)
Definition is_message (x : ui) : bool :=
  match x with
  | st_warning _ | st_error _ | st_markdown _ => true
  | _ => false
  end.

#[global] Instance nonspace_dec (c : codepoint) : Decision (nonspace c).
Proof. unfold nonspace. apply _. Defined.

#[global] Instance unmarked_dec (c : codepoint) : Decision (unmarked c).
Proof. unfold unmarked. apply _. Defined.

(** * Properties *)

(** ** Stripping *)

Lemma lstrip_split (s : str) :
  ∃ l, s = l ++ lstrip s ∧ forallb isspace l = true.
Proof.
  induction s as [|c s [l [Hs Hl]]]; simpl.
  - by exists [].
  - destruct (isspace c) eqn:Hc.
    + exists (c :: l). simpl. rewrite Hc, Hl. split; [by f_equal | done].
    + by exists [].
Qed.

Lemma lstrip_starts (s : str) : starts_space (lstrip s) = false.
Proof.
  induction s as [|c s IH]; simpl; [done|].
  destruct (isspace c) eqn:Hc; [done|]. unfold starts_space. by simpl.
Qed.

Lemma lstrip_fixed (s : str) : starts_space s = false → lstrip s = s.
Proof.
  destruct s as [|c s]; [done|]. unfold starts_space. simpl. by intros ->.
Qed.

Lemma rstrip_split (s : str) :
  ∃ r, s = rstrip s ++ r ∧ forallb isspace r = true.
Proof.
  unfold rstrip. destruct (lstrip_split (reverse s)) as [l [Hs Hl]].
  exists (reverse l). split.
  - rewrite <- reverse_app, <- Hs. symmetry. apply reverse_involutive.
  - apply forallb_forall. intros c Hc. rewrite <- list_elem_of_In in Hc.
    rewrite elem_of_reverse, list_elem_of_In in Hc.
    revert c Hc. exact (proj1 (forallb_forall isspace l) Hl).
Qed.

Lemma rstrip_ends (s : str) : ends_space (rstrip s) = false.
Proof.
  unfold ends_space, rstrip. rewrite last_reverse. apply lstrip_starts.
Qed.

Lemma rstrip_fixed (s : str) : ends_space s = false → rstrip s = s.
Proof.
  intros H. unfold rstrip. rewrite lstrip_fixed.
  - apply reverse_involutive.
  - unfold starts_space. by rewrite head_reverse.
Qed.

Lemma rstrip_starts (s : str) : starts_space s = false → starts_space (rstrip s) = false.
Proof.
  intros H. destruct (rstrip_split s) as [r [Hs _]].
  destruct (rstrip s) as [|c t]; [done|].
  rewrite Hs in H. exact H.
Qed.

Lemma strip_split (s : str) :
  ∃ l r, s = l ++ strip s ++ r
         ∧ forallb isspace l = true ∧ forallb isspace r = true.
Proof.
  destruct (lstrip_split s) as [l [Hl Hsl]].
  destruct (rstrip_split (lstrip s)) as [r [Hr Hsr]].
  exists l, r. unfold strip. by rewrite <- Hr, <- Hl.
Qed.

Lemma strip_starts (s : str) : starts_space (strip s) = false.
Proof. apply rstrip_starts, lstrip_starts. Qed.

Lemma strip_ends (s : str) : ends_space (strip s) = false.
Proof. apply rstrip_ends. Qed.

Lemma strip_fixed (s : str) :
  starts_space s = false → ends_space s = false → strip s = s.
Proof.
  intros Hh Ht. unfold strip. rewrite (lstrip_fixed s Hh). by apply rstrip_fixed.
Qed.

(** ** Removing the marks *)

Lemma re_sub_class_delete (cls : list codepoint) (s : str) :
  re_sub_class cls [] s = filter (λ c, c ∉ cls) s.
Proof.
  induction s as [|c s IH]; simpl; [done|].
  rewrite filter_cons. case_bool_decide as Hc.
  - rewrite decide_False by (intros Hn; by apply Hn). exact IH.
  - rewrite decide_True by done. by rewrite IH.
Qed.

Lemma filter_fixed (cls : list codepoint) (s : str) :
  Forall (λ c, c ∉ cls) s → filter (λ c, c ∉ cls) s = s.
Proof.
  induction 1 as [|c s Hc _ IH]; [done|].
  rewrite filter_cons, decide_True by done. by rewrite IH.
Qed.

Lemma normalize_phoneme_no_marks (s : str) :
  Forall (λ c, c ∉ marks) (normalize_phoneme s).
Proof.
  unfold normalize_phoneme. rewrite re_sub_class_delete.
  destruct (strip_split (filter (λ c, c ∉ marks) s)) as [l [r [Hs _]]].
  assert (Forall (λ c, c ∉ marks) (filter (λ c, c ∉ marks) s)) as Hall.
  { apply Forall_forall. intros c Hc. by apply list_elem_of_filter in Hc as [? _]. }
  rewrite Hs in Hall. apply Forall_app in Hall as [_ Hall].
  by apply Forall_app in Hall as [Hall _].
Qed.

Lemma clean_fixed (s : str) : clean s = true → normalize_phoneme s = s.
Proof.
  unfold clean. rewrite !andb_true_iff, !negb_true_iff.
  intros [[Hm Hh] Ht]. unfold normalize_phoneme.
  rewrite re_sub_class_delete, filter_fixed.
  - by apply strip_fixed.
  - apply Forall_forall. intros c Hc.
    rewrite forallb_forall in Hm. specialize (Hm c).
    rewrite <- list_elem_of_In in Hm. specialize (Hm Hc).
    apply negb_true_iff in Hm. by apply bool_decide_eq_false in Hm.
Qed.

Lemma normalize_phoneme_clean (s : str) : clean (normalize_phoneme s) = true.
Proof.
  unfold clean. rewrite !andb_true_iff, !negb_true_iff. split; [split|].
  - apply forallb_forall. intros c Hc. rewrite <- list_elem_of_In in Hc.
    pose proof (normalize_phoneme_no_marks s) as Hall.
    rewrite Forall_forall in Hall. apply negb_true_iff, bool_decide_eq_false.
    by apply Hall.
  - apply strip_starts.
  - apply strip_ends.
Qed.

(** C4. [normalize_phoneme] is a total function on strings; its result is
    the input with exactly the code points U+02C8, U+02CC and U+02D0 deleted
    (every other code point kept, in order), after which the white space at
    both ends is cut off: the deleted-marks string is [l ++ result ++ r] with
    [l] and [r] all white space, and the result neither starts nor ends with
    white space. The empty string is mapped to the empty string. *)
Theorem normalize_phoneme_spec (s : str) :
  ∃ l r : str,
    filter (λ c, c ∉ [primary_stress; secondary_stress; length_mark]) s
      = l ++ normalize_phoneme s ++ r
    ∧ forallb isspace l = true ∧ forallb isspace r = true
    ∧ starts_space (normalize_phoneme s) = false
    ∧ ends_space (normalize_phoneme s) = false
    ∧ normalize_phoneme [] = [].
Proof.
  unfold normalize_phoneme at 1. rewrite re_sub_class_delete.
  destruct (strip_split (filter (λ c, c ∉ marks) s)) as [l [r [Hs [Hl Hr]]]].
  exists l, r. split; [exact Hs|]. split; [exact Hl|]. split; [exact Hr|].
  split; [apply strip_starts|]. split; [apply strip_ends|]. reflexivity.
Qed.

(** C5. Normalization is idempotent, and a clean symbol (none of the three
    marks, no white space at either end) is returned unchanged; every result
    of the normalizer is clean. *)
Theorem normalize_phoneme_idempotent (s : str) :
  normalize_phoneme (normalize_phoneme s) = normalize_phoneme s
  ∧ (clean s = true → normalize_phoneme s = s)
  ∧ clean (normalize_phoneme s) = true.
Proof.
  split; [|split].
  - apply clean_fixed, normalize_phoneme_clean.
  - apply clean_fixed.
  - apply normalize_phoneme_clean.
Qed.

(** The symbol U+0251 is clean and is its own normal form. *)
Lemma normalize_phoneme_idempotent_witness :
  clean [0x251] = true ∧ normalize_phoneme [0x251] = [0x251].
Proof.
  split; [reflexivity|].
  apply (normalize_phoneme_idempotent [0x251]). reflexivity.
Defined.

(** ** The chakra mapper *)

(** The loop, started from any pair of lists, appends one record per phoneme
    and one chakra per phoneme that the table knows. *)
Lemma map_step_foldl (m : gmap (list N) (list N)) (phonemes : list str) :
  ∀ (matched : list MatchRecord) (chakras : list str),
    foldl (map_step m) (matched, chakras) phonemes
    = (matched ++ (record_of m <$> phonemes),
       chakras ++ omap (λ p, m !! normalize_phoneme p) phonemes).
Proof.
  induction phonemes as [|p ps IH]; intros matched chakras.
  - simpl. by rewrite !app_nil_r.
  - change (foldl (map_step m) (matched, chakras) (p :: ps))
      with (foldl (map_step m) (map_step m (matched, chakras) p) ps).
    assert (map_step m (matched, chakras) p
            = (matched ++ [record_of m p],
               chakras ++ option_list (m !! normalize_phoneme p))) as ->.
    { unfold map_step, record_of.
      destruct (m !! normalize_phoneme p); simpl; by rewrite ?app_nil_r. }
    rewrite IH, <- !app_assoc, fmap_cons. unfold omap. simpl list_omap.
    destruct (m !! normalize_phoneme p); reflexivity.
Qed.

Lemma map_phonemes_to_chakras_eq (m : gmap (list N) (list N)) (phonemes : list str) :
  map_phonemes_to_chakras m phonemes
  = (record_of m <$> phonemes, omap (λ p, m !! normalize_phoneme p) phonemes).
Proof. unfold map_phonemes_to_chakras. by rewrite map_step_foldl. Qed.

Lemma omap_lookup_filter (m : gmap (list N) (list N)) (phonemes : list str) :
  omap (λ p, m !! normalize_phoneme p) phonemes
  = (λ p, default [] (m !! normalize_phoneme p))
      <$> filter (λ p, is_Some (m !! normalize_phoneme p)) phonemes.
Proof.
  induction phonemes as [|p ps IH]; [done|].
  rewrite filter_cons. unfold omap in *. simpl list_omap. rewrite IH.
  destruct (m !! normalize_phoneme p) as [c|] eqn:Hp.
  - rewrite decide_True by eauto. rewrite fmap_cons. by rewrite Hp.
  - rewrite decide_False by (by intros [? ?]). reflexivity.
Qed.

(** C6. The record list has one record per input phoneme, in input order:
    the lengths agree, and at every index the record holds the phoneme of
    that index and its normalized form as its first two components. *)
Theorem map_phonemes_records_in_order
    (m : gmap (list N) (list N)) (phonemes : list str) :
  let matched_phonemes := (map_phonemes_to_chakras m phonemes).1 in
  length matched_phonemes = length phonemes
  ∧ ∀ i : nat,
      (λ r : MatchRecord, (r.1.1, r.1.2)) <$> matched_phonemes !! i
      = (λ p, (p, normalize_phoneme p)) <$> phonemes !! i.
Proof.
  rewrite map_phonemes_to_chakras_eq. simpl. split.
  - by rewrite length_fmap.
  - intros i. rewrite list_lookup_fmap. by destruct (phonemes !! i).
Qed.

(** C10. The chakra list is the list of the table entries of the matched
    phonemes, in input order and with repetitions kept: it is
    [[m[normalize(p)] for p in phonemes if normalize(p) in m]]. *)
Theorem map_phonemes_chakras_in_order
    (m : gmap (list N) (list N)) (phonemes : list str) :
  (map_phonemes_to_chakras m phonemes).2
  = (λ p, default [] (m !! normalize_phoneme p))
      <$> filter (λ p, is_Some (m !! normalize_phoneme p)) phonemes.
Proof.
  rewrite map_phonemes_to_chakras_eq. simpl. apply omap_lookup_filter.
Qed.

(** *** The scenario of the name Mahaan *)

Lemma mahaan_chakras :
  (map_phonemes_to_chakras mahaan_map mahaan).2
  = [Muladhara; Manipura; Vishuddha; Manipura; Anahata].
Proof. vm_compute. reflexivity. Qed.

(** The chakra list of the scenario holds Manipura twice. *)
Lemma chakras_duplicate_counterexample :
  ¬ NoDup (map_phonemes_to_chakras mahaan_map mahaan).2
  ∧ length (map_phonemes_to_chakras mahaan_map mahaan).2 = 5%nat.
Proof.
  rewrite mahaan_chakras. split; [|reflexivity]. intros Hnd.
  apply NoDup_cons in Hnd as [_ Hnd]. apply NoDup_cons in Hnd as [Hin _].
  apply Hin. right. left.
Qed.

(** C1, amended. The chakra list returned by the mapper is not a set: it
    has one entry per matched phoneme, so a chakra reached by several
    phonemes is listed several times. Duplicates go away where
    [generate_story] lists [set(chakras)]: that list has no duplicates and
    the same members. In the scenario the chakra list is Muladhara, Manipura,
    Vishuddha, Manipura, Anahata, and its set of distinct members is
    Muladhara, Manipura, Vishuddha, Anahata, of size 4. *)
Theorem chakras_distinct_after_set
    (rt : runtime) (m : gmap (list N) (list N)) (phonemes : list str) :
  let chakras := (map_phonemes_to_chakras m phonemes).2 in
  length chakras
    = length (filter (λ p, is_Some (m !! normalize_phoneme p)) phonemes)
  ∧ NoDup (list_of_set rt chakras)
  ∧ list_to_set (list_of_set rt chakras) =@{gset (list N)} list_to_set chakras
  ∧ (map_phonemes_to_chakras mahaan_map mahaan).2
    = [Muladhara; Manipura; Vishuddha; Manipura; Anahata]
  ∧ list_to_set (map_phonemes_to_chakras mahaan_map mahaan).2
    =@{gset (list N)} {[Muladhara; Manipura; Vishuddha; Anahata]}
  ∧ size (list_to_set (C := gset (list N))
            (map_phonemes_to_chakras mahaan_map mahaan).2) = 4%nat.
Proof.
  intros chakras.
  assert (list_to_set (map_phonemes_to_chakras mahaan_map mahaan).2
          =@{gset (list N)} {[Muladhara; Manipura; Vishuddha; Anahata]}) as Hset.
  { rewrite mahaan_chakras. apply set_eq. intros c.
    rewrite elem_of_list_to_set, !elem_of_union, !elem_of_singleton,
      !elem_of_cons, elem_of_nil. tauto. }
  split; [|split; [|split; [|split; [|split]]]].
  - subst chakras. rewrite map_phonemes_to_chakras_eq. cbn [snd].
    by rewrite omap_lookup_filter, length_fmap.
  - rewrite (list_of_set_perm rt chakras). apply NoDup_remove_dups.
  - apply set_eq. intros c. rewrite !elem_of_list_to_set.
    rewrite (list_of_set_perm rt chakras). apply elem_of_remove_dups.
  - apply mahaan_chakras.
  - exact Hset.
  - vm_compute. reflexivity.
Qed.

(** A table may carry the sentinel text as a chakra; then a matched phoneme
    puts it into the chakra list. *)
Lemma sentinel_in_chakras_counterexample :
  ¬ (not_found ∉ (map_phonemes_to_chakras {[lit "m" := not_found]} [lit "m"]).2).
Proof. intros H. apply H. vm_compute. left. Qed.

(** C7, amended. When no chakra of the table is the sentinel text
    [not_found], the sentinel is not in the chakra list. For every table, a
    phoneme whose normalized form is not a key gets the sentinel in its
    record and adds nothing to the chakra list: the chakra list is the one of
    the input without that phoneme. *)
Theorem sentinel_not_in_chakras
    (m : gmap (list N) (list N)) (phonemes : list str) :
  (map_Forall (λ _ chakra, chakra ≠ not_found) m →
   not_found ∉ (map_phonemes_to_chakras m phonemes).2)
  ∧ (∀ (before : list str) (p : str) (after : list str),
       phonemes = before ++ p :: after →
       m !! normalize_phoneme p = None →
       (map_phonemes_to_chakras m phonemes).1 !! length before
         = Some (p, normalize_phoneme p, not_found)
       ∧ (map_phonemes_to_chakras m phonemes).2
         = (map_phonemes_to_chakras m (before ++ after)).2).
Proof.
  split.
  - intros Hm Hin. rewrite map_phonemes_to_chakras_eq in Hin. simpl in Hin.
    apply list_elem_of_omap in Hin as [p [_ Hp]].
    by apply (Hm _ _ Hp).
  - intros before p after -> Hp. rewrite !map_phonemes_to_chakras_eq. simpl.
    split.
    + rewrite fmap_app, fmap_cons.
      rewrite <- (length_fmap (record_of m) before), list_lookup_middle by done.
      unfold record_of. by rewrite Hp.
    + rewrite !omap_app. unfold omap at 2. simpl. by rewrite Hp.
Qed.

(** The scenario followed by a symbol that the table does not know. *)
Lemma sentinel_not_in_chakras_witness :
  let result := map_phonemes_to_chakras mahaan_map (mahaan ++ [lit "x"]) in
  (not_found ∉ result.2)
  ∧ result.1 !! 5%nat = Some (lit "x", lit "x", not_found)
  ∧ result.2 = (map_phonemes_to_chakras mahaan_map (mahaan ++ [])).2.
Proof.
  intros result. split.
  - apply (proj1 (sentinel_not_in_chakras mahaan_map (mahaan ++ [lit "x"]))).
    apply (bool_decide_unpack _). vm_compute. exact I.
  - apply (proj2 (sentinel_not_in_chakras mahaan_map (mahaan ++ [lit "x"]))
             mahaan (lit "x") []); reflexivity.
Defined.

(** ** The story request *)

(** Past the two guards exactly one request is sent, and the result is read
    off the outcome of the [try] block. *)
Lemma generate_story_guarded (rt : runtime) (name : str) (chakras : list str)
    (api_key : str) :
  chakras ≠ [] → api_key ≠ [] →
  generate_story rt name chakras api_key
  = (match read_story (requests_post rt (request_of rt name chakras api_key)) with
     | inr story => story
     | inl e => error_prefix ++ exn_str rt e
     end,
     [request_of rt name chakras api_key]).
Proof.
  intros Hc Hk. unfold generate_story, request_of.
  destruct chakras as [|c cs]; [done|]. destruct api_key as [|k ks]; [done|].
  by destruct (read_story _).
Qed.

(** C3. With an empty chakra list the result is the fixed text
    "No chakras found to generate a story." whatever the name and the key
    are, and no request is sent. *)
Theorem generate_story_no_chakras (rt : runtime) (name api_key : str) :
  generate_story rt name [] api_key
  = (lit "No chakras found to generate a story.", []).
Proof. reflexivity. Qed.

(** With no chakra and no key the chakra guard answers first. *)
Lemma empty_key_counterexample :
  generate_story (runtime_of unreachable_server exn_text) (lit "Mahaan") [] []
  = (lit "No chakras found to generate a story.", [])
  ∧ generate_story (runtime_of unreachable_server exn_text) (lit "Mahaan") [] []
    ≠ (lit "Please provide a valid xAI API key.", []).
Proof. split; [reflexivity|]. vm_compute. discriminate. Qed.

(** C2, amended. With a non-empty chakra list and an empty key the result is
    the fixed text "Please provide a valid xAI API key.", whatever the name
    is, and no request is sent. *)
Theorem generate_story_no_key (rt : runtime) (name : str) (chakras : list str) :
  chakras ≠ [] →
  generate_story rt name chakras []
  = (lit "Please provide a valid xAI API key.", []).
Proof. intros Hc. by destruct chakras. Qed.

Lemma generate_story_no_key_witness :
  [Muladhara; Manipura] ≠ []
  ∧ generate_story (runtime_of unreachable_server exn_text) (lit "Mahaan")
      [Muladhara; Manipura] []
    = (lit "Please provide a valid xAI API key.", []).
Proof.
  split; [discriminate|].
  apply (generate_story_no_key (runtime_of unreachable_server exn_text)
           (lit "Mahaan") [Muladhara; Manipura]).
  discriminate.
Defined.

(** *** Reading the response *)

Lemma read_story_raised (e : exn) : read_story (inl e) = inl e.
Proof. reflexivity. Qed.

Lemma read_story_error_status (r : response) :
  error_status (status_code r) →
  read_story (inr r) = inl (HTTPError (status_code r)).
Proof.
  intros Hs. unfold read_story, raise_for_status. simpl.
  by rewrite bool_decide_eq_true_2.
Qed.

Lemma read_story_passed (r : response) :
  ¬ error_status (status_code r) → read_story (inr r) = read_body r.
Proof.
  intros Hs. unfold read_story, read_body, raise_for_status. simpl.
  by rewrite bool_decide_eq_false_2.
Qed.

Lemma read_body_well_formed (r : response) (v : json) (text : str) :
  decoded r = Some v → well_formed v text → read_body r = inr (strip text).
Proof.
  intros Hv (d & c & others & -> & Hd & Hc).
  unfold read_body, response_json. rewrite Hv. simpl. rewrite Hd. simpl.
  by rewrite Hc.
Qed.

(** Whenever the body is read with success it was well formed. *)
Lemma read_body_success (r : response) (story : str) :
  read_body r = inr story →
  ∃ v text, decoded r = Some v ∧ well_formed v text ∧ story = strip text.
Proof.
  unfold read_body, response_json. intros H.
  destruct (decoded r) as [v|]; [|discriminate]. simpl in H.
  destruct v as [| | | |l|d]; try discriminate. simpl in H.
  destruct (d !! lit "choices") as [choices|] eqn:Hd; [|discriminate].
  simpl in H.
  destruct choices as [| | |s|[|choice others]|d']; try discriminate.
  - destruct s; discriminate.
  - simpl in H. destruct choice as [| | | |l|c]; try discriminate.
    simpl in H. destruct (c !! lit "text") as [text|] eqn:Hc; [|discriminate].
    simpl in H. destruct text as [| | |t| |]; try discriminate.
    injection H as <-. exists (JDict d), t. split; [done|]. split; [|done].
    by exists d, c, others.
Qed.

Lemma read_body_missing_choices (r : response) (d : gmap (list N) json) :
  decoded r = Some (JDict d) → d !! lit "choices" = None →
  read_body r = inl (KeyError (JStr (lit "choices"))).
Proof.
  intros Hv Hd. unfold read_body, response_json. rewrite Hv. simpl.
  by rewrite Hd.
Qed.

Lemma read_body_empty_choices (r : response) (d : gmap (list N) json) :
  decoded r = Some (JDict d) → d !! lit "choices" = Some (JList []) →
  read_body r = inl IndexError.
Proof.
  intros Hv Hd. unfold read_body, response_json. rewrite Hv. simpl.
  by rewrite Hd.
Qed.

(** *** Two servers *)

Lemma story_object_well_formed :
  well_formed (JDict story_object) (lit " Once upon a time. ").
Proof.
  exists story_object, story_choice, []. split; [done|].
  split; apply lookup_singleton_eq.
Qed.

(** A status outside 200..299 that [raise_for_status] lets through: the body
    is read, and the result is the story, not an error text. *)
Lemma non_success_status_counterexample :
  let result :=
    generate_story (runtime_of multiple_choices_server exn_text)
      (lit "Mahaan") [Muladhara] (lit "secret") in
  ¬ (200 ≤ 300 < 300)%Z
  ∧ result.1 = lit "Once upon a time."
  ∧ ¬ ∃ details : str, result.1 = error_prefix ++ details.
Proof.
  assert ((generate_story (runtime_of multiple_choices_server exn_text)
             (lit "Mahaan") [Muladhara] (lit "secret")).1
          = lit "Once upon a time.") as Hr.
  { vm_compute. reflexivity. }
  intros result. subst result. rewrite Hr.
  split; [lia|]. split; [done|]. intros [details Hd]. discriminate Hd.
Qed.

(** C8, amended. With a non-empty chakra list and a non-empty key exactly
    one request is sent, and the call always returns a string. When the POST
    returns a response whose status is not in 400..599 and whose body is well
    formed, the result is the stripped text of the first choice. When the
    POST raises, when the status is in 400..599, when the body is not JSON,
    when ["choices"] is missing or is the empty list, the result is
    "Error generating story: " followed by the text of the exception. There
    is no third case: the result is such an error text unless the status
    passed and the body was well formed. A status outside 200..299 that is
    not in 400..599 does not make an error by itself. *)
Theorem generate_story_outcome (rt : runtime) (name : str) (chakras : list str)
    (api_key : str) :
  chakras ≠ [] → api_key ≠ [] →
  let req := request_of rt name chakras api_key in
  let result := generate_story rt name chakras api_key in
  result.2 = [req]
  ∧ (∀ r v text,
       requests_post rt req = inr r → ¬ error_status (status_code r) →
       decoded r = Some v → well_formed v text →
       result.1 = strip text)
  ∧ (∀ e, requests_post rt req = inl e →
       result.1 = lit "Error generating story: " ++ exn_str rt e)
  ∧ (∀ r, requests_post rt req = inr r → error_status (status_code r) →
       result.1 = lit "Error generating story: "
                  ++ exn_str rt (HTTPError (status_code r)))
  ∧ (∀ r, requests_post rt req = inr r → ¬ error_status (status_code r) →
       decoded r = None →
       result.1 = lit "Error generating story: " ++ exn_str rt JSONDecodeError)
  ∧ (∀ r d, requests_post rt req = inr r → ¬ error_status (status_code r) →
       decoded r = Some (JDict d) → d !! lit "choices" = None →
       result.1 = lit "Error generating story: "
                  ++ exn_str rt (KeyError (JStr (lit "choices"))))
  ∧ (∀ r d, requests_post rt req = inr r → ¬ error_status (status_code r) →
       decoded r = Some (JDict d) → d !! lit "choices" = Some (JList []) →
       result.1 = lit "Error generating story: " ++ exn_str rt IndexError)
  ∧ ((∃ e, result.1 = lit "Error generating story: " ++ exn_str rt e)
     ∨ (∃ r v text,
          requests_post rt req = inr r ∧ ¬ error_status (status_code r)
          ∧ decoded r = Some v ∧ well_formed v text
          ∧ result.1 = strip text)).
Proof.
  intros Hc Hk req result. subst req result.
  rewrite generate_story_guarded by done. cbn [fst snd].
  split; [done|]. split; [|split; [|split; [|split; [|split; [|split]]]]].
  - intros r v text -> Hs Hv Hw.
    by rewrite read_story_passed, (read_body_well_formed r v text).
  - by intros e ->.
  - intros r -> Hs. by rewrite read_story_error_status.
  - intros r -> Hs Hv. rewrite read_story_passed by done.
    unfold read_body, response_json. by rewrite Hv.
  - intros r d -> Hs Hv Hd.
    by rewrite read_story_passed, (read_body_missing_choices r d).
  - intros r d -> Hs Hv Hd.
    by rewrite read_story_passed, (read_body_empty_choices r d).
  - destruct (requests_post rt _) as [e|r] eqn:Hpost.
    + left. by exists e.
    + destruct (decide (error_status (status_code r))) as [Hs|Hs].
      * left. rewrite read_story_error_status by done. by eexists.
      * rewrite read_story_passed by done.
        destruct (read_body r) as [e|story] eqn:Hbody.
        -- left. by exists e.
        -- right. apply read_body_success in Hbody as (v & text & Hv & Hw & ->).
           by exists r, v, text.
Qed.

(** The server that answers 200 with the story body. *)
Lemma generate_story_outcome_witness :
  [Muladhara] ≠ [] ∧ lit "secret" ≠ []
  ∧ (generate_story (runtime_of story_server exn_text)
       (lit "Mahaan") [Muladhara] (lit "secret")).1
    = lit "Once upon a time.".
Proof.
  split; [discriminate|]. split; [discriminate|].
  refine (proj1 (proj2 (generate_story_outcome (runtime_of story_server exn_text)
            (lit "Mahaan") [Muladhara] (lit "secret") _ _))
          {| status_code := 200; decoded := Some (JDict story_object) |}
          (JDict story_object) (lit " Once upon a time. ") eq_refl _ eq_refl
          story_object_well_formed).
  - discriminate.
  - discriminate.
  - unfold error_status. simpl. lia.
Defined.

(** *** The prompt *)

Lemma chakra_desc_keys (k : str) :
  is_Some (chakra_desc !! k) ↔ k ∈ seven_chakras.
Proof.
  rewrite <- elem_of_dom. unfold chakra_desc.
  rewrite dom_list_to_map_L, elem_of_list_to_set. reflexivity.
Qed.

Lemma omap_desc_clause (unique_chakras : list str) :
  omap desc_clause unique_chakras
  = clause_of <$> filter (λ k, k ∈ seven_chakras) unique_chakras.
Proof.
  induction unique_chakras as [|k ks IH]; [done|].
  rewrite filter_cons. unfold omap in *. simpl list_omap. rewrite IH.
  unfold desc_clause at 1.
  destruct (chakra_desc !! k) as [d|] eqn:Hk.
  - rewrite decide_True by (apply chakra_desc_keys; eauto).
    rewrite fmap_cons. f_equal. unfold clause_of. by rewrite Hk.
  - rewrite decide_False; [done|].
    intros Hin. apply chakra_desc_keys in Hin as [d Hd]. congruence.
Qed.

(** C9. With a non-empty chakra list and a non-empty key, the prompt of the
    request that is sent is the fixed text around three insertions: the
    protagonist, which is the name or "a sage" for the empty name; the
    chakras, joined by ", ", each distinct chakra of the input once; and the
    description clauses, joined by "; ", one clause "name: description" for
    each listed chakra that is one of the seven names of the description
    table, in the same order, and none for any other chakra. *)
Theorem generate_story_prompt (rt : runtime) (name : str) (chakras : list str)
    (api_key : str) :
  chakras ≠ [] → api_key ≠ [] →
  ∃ unique_chakras : list str,
    prompt ∘ body <$> (generate_story rt name chakras api_key).2
    = [prompt_head ++ (if decide (name = []) then lit "a sage" else name)
       ++ prompt_quest ++ join (lit ", ") unique_chakras
       ++ prompt_meaning
       ++ join (lit "; ")
            ((λ k, k ++ lit ": " ++ default [] (chakra_desc !! k))
               <$> filter (λ k, k ∈ seven_chakras) unique_chakras)
       ++ prompt_tail]
    ∧ NoDup unique_chakras
    ∧ list_to_set unique_chakras =@{gset (list N)} list_to_set chakras
    ∧ dom chakra_desc =@{gset (list N)} list_to_set seven_chakras
    ∧ Forall (λ k, k ∉ seven_chakras → desc_clause k = None) unique_chakras.
Proof.
  intros Hc Hk. exists (list_of_set rt chakras).
  rewrite generate_story_guarded by done. cbn [snd].
  split; [|split; [|split; [|split]]].
  - unfold request_of, story_request, build_prompt. simpl.
    rewrite omap_desc_clause. unfold protagonist, clause_of.
    destruct name; reflexivity.
  - rewrite (list_of_set_perm rt chakras). apply NoDup_remove_dups.
  - apply set_eq. intros c. rewrite !elem_of_list_to_set.
    rewrite (list_of_set_perm rt chakras). apply elem_of_remove_dups.
  - unfold chakra_desc. by rewrite dom_list_to_map_L.
  - apply Forall_forall. intros k _ Hn. unfold desc_clause.
    destruct (chakra_desc !! k) as [d|] eqn:Hd; [|done].
    exfalso. apply Hn, chakra_desc_keys. eauto.
Qed.

(** A run with the empty name, a repeated chakra and a chakra that the
    description table does not have. *)
Lemma generate_story_prompt_witness :
  ∃ unique_chakras : list str,
    prompt ∘ body
      <$> (generate_story (runtime_of story_server exn_text) []
             [Manipura; lit "Bindu"; Manipura] (lit "secret")).2
    = [prompt_head ++ lit "a sage" ++ prompt_quest
       ++ join (lit ", ") unique_chakras ++ prompt_meaning
       ++ join (lit "; ")
            ((λ k, k ++ lit ": " ++ default [] (chakra_desc !! k))
               <$> filter (λ k, k ∈ seven_chakras) unique_chakras)
       ++ prompt_tail]
    ∧ NoDup unique_chakras.
Proof.
  destruct (generate_story_prompt (runtime_of story_server exn_text) []
              [Manipura; lit "Bindu"; Manipura] (lit "secret"))
    as (u & Hp & Hn & _); [discriminate | discriminate |].
  exists u. split; [exact Hp | exact Hn].
Defined.

(** * Further properties of the script *)

(** ** Splitting a transcription *)

Lemma split_from_concat (s : str) :
  ∀ word, concat (split_from word s) = word ++ filter nonspace s.
Proof.
  induction s as [|c s IH]; intros word.
  - destruct word; simpl; by rewrite ?app_nil_r.
  - rewrite filter_cons. simpl. destruct (isspace c) eqn:Hc.
    + rewrite decide_False by (unfold nonspace; congruence).
      destruct word as [|w ws]; [apply IH|].
      simpl. rewrite IH. reflexivity.
    + rewrite decide_True by exact Hc.
      rewrite IH, <- app_assoc. reflexivity.
Qed.

Lemma split_from_words (s : str) :
  ∀ word, Forall nonspace word → Forall is_word (split_from word s).
Proof.
  induction s as [|c s IH]; intros word Hw; simpl.
  - destruct word; [constructor|].
    constructor; [by split | constructor].
  - destruct (isspace c) eqn:Hc.
    + destruct word as [|w ws]; [by apply IH|].
      constructor; [by split|]. by apply IH.
    + apply IH, Forall_app. split; [done|]. by constructor.
Qed.

Lemma split_from_nil (s : str) :
  ∀ word, split_from word s = [] ↔ word = [] ∧ forallb isspace s = true.
Proof.
  induction s as [|c s IH]; intros word; simpl.
  - destruct word; split; try done. by intros [? _].
  - destruct (isspace c) eqn:Hc; simpl.
    + destruct word as [|w ws]; [apply IH|].
      split; [done|]. by intros [? _].
    + rewrite IH. split; [|by intros [_ ?]].
      intros [Hw _]. by destruct word.
Qed.

Lemma split_from_word (p : str) :
  ∀ word rest, Forall nonspace p →
    split_from word (p ++ rest) = split_from (word ++ p) rest.
Proof.
  induction p as [|c p IH]; intros word rest Hp.
  - by rewrite app_nil_r.
  - apply Forall_cons in Hp as [Hc Hp]. simpl. rewrite Hc.
    rewrite IH by done. by rewrite <- app_assoc.
Qed.

Lemma split_join_words (p : str) (words : list str) :
  Forall is_word (p :: words) →
  split_from [] (join (lit " ") (p :: words)) = p :: words.
Proof.
  revert p. induction words as [|q words IH]; intros p Hw.
  - apply Forall_cons in Hw as [[Hne Hp] _]. simpl.
    rewrite <- (app_nil_r p) at 1. rewrite split_from_word by done.
    simpl. by destruct p.
  - apply Forall_cons in Hw as [[Hne Hp] Hw].
    change (join (lit " ") (p :: q :: words))
      with (p ++ lit " " ++ join (lit " ") (q :: words)).
    rewrite split_from_word by done.
    change (lit " " ++ join (lit " ") (q :: words))
      with (32 :: join (lit " ") (q :: words)).
    change (split_from ([] ++ p) (32 :: join (lit " ") (q :: words)))
      with (match p with
            | [] => split_from [] (join (lit " ") (q :: words))
            | _ => p :: split_from [] (join (lit " ") (q :: words))
            end).
    rewrite IH by done. by destruct p.
Qed.

(** X1. The words that [split] returns are not empty and hold no white
    space, and together, in order, they are the input without its white
    space: nothing else is lost. *)
Theorem split_words (s : str) :
  Forall is_word (split s) ∧ concat (split s) = filter nonspace s.
Proof.
  split.
  - apply split_from_words. constructor.
  - apply (split_from_concat s []).
Qed.

(** X2. [split] returns no word exactly when the input holds nothing but
    white space, the empty string included. *)
Theorem split_nil_iff (s : str) :
  split s = [] ↔ forallb isspace s = true.
Proof.
  unfold split. rewrite split_from_nil. split; [by intros [_ ?] | done].
Qed.

(** X3. Splitting undoes joining by one space: a list of words, each not
    empty and free of white space, is recovered from its space-separated
    transcription. *)
Theorem split_join (words : list str) :
  Forall is_word words → split (join (lit " ") words) = words.
Proof.
  intros Hw. destruct words as [|p words]; [reflexivity|].
  by apply split_join_words.
Qed.

Lemma split_join_witness :
  Forall is_word mahaan ∧ split (join (lit " ") mahaan) = mahaan.
Proof.
  assert (Forall is_word mahaan) as Hw.
  { repeat constructor; discriminate. }
  split; [exact Hw|]. apply (split_join mahaan). exact Hw.
Defined.

(** ** Phonemes without white space *)

Lemma nonspace_ends (s : str) :
  Forall nonspace s → starts_space s = false ∧ ends_space s = false.
Proof.
  intros Hs. unfold starts_space, ends_space. split.
  - destruct s as [|c s]; [done|]. by apply Forall_cons in Hs as [Hc _].
  - destruct (last s) as [c|] eqn:Hl; [|done]. simpl.
    apply last_Some in Hl as [s' ->].
    apply Forall_app in Hs as [_ Hs]. by apply Forall_cons in Hs as [Hc _].
Qed.

Lemma strip_nonspace (s : str) : Forall nonspace s → strip s = s.
Proof. intros Hs. apply nonspace_ends in Hs as [Hh Ht]. by apply strip_fixed. Qed.

Lemma forallb_isspace_app (l r : str) :
  forallb isspace (l ++ r) = forallb isspace l && forallb isspace r.
Proof. induction l as [|c l IH]; simpl; [done|]. by rewrite IH, andb_assoc. Qed.

Lemma strip_nil_iff (s : str) : strip s = [] ↔ forallb isspace s = true.
Proof.
  destruct (strip_split s) as (l & r & Hs & Hl & Hr). split.
  - intros Hn. rewrite Hs, Hn. simpl. by rewrite forallb_isspace_app, Hl, Hr.
  - intros Hall. pose proof (strip_starts s) as Hh.
    destruct (strip s) as [|c t]; [done|]. exfalso.
    rewrite Hs, !forallb_isspace_app in Hall. simpl in Hall.
    unfold starts_space in Hh. simpl in Hh. rewrite Hh in Hall.
    by rewrite andb_false_r in Hall.
Qed.

(** X4. The phonemes that [get_phonemes] returns are words, not empty and
    free of white space; for such a phoneme the stripping of
    [normalize_phoneme] does nothing, so its normal form is the phoneme
    without the three marks. *)
Theorem get_phonemes_words (phonemize : str → phonemized) (name : str) :
  Forall (λ p, is_word p ∧ normalize_phoneme p = filter unmarked p)
    (get_phonemes phonemize name).1.
Proof.
  unfold get_phonemes. destruct (phonemize name) as [e|t]; [constructor|].
  simpl. assert (Forall is_word (split t)) as Hw.
  { apply split_from_words. constructor. }
  eapply Forall_impl; [exact Hw|]. intros p [Hne Hp]. split; [by split|].
  unfold normalize_phoneme. rewrite re_sub_class_delete.
  apply strip_nonspace. apply Forall_forall. intros c Hc.
  apply list_elem_of_filter in Hc as [_ Hc].
  rewrite Forall_forall in Hp. by apply Hp.
Qed.

(** X5. A normal form is never longer than the phoneme, and it is the empty
    string exactly when the phoneme holds nothing but the three marks and
    white space. *)
Theorem normalize_phoneme_empty_iff (s : str) :
  (length (normalize_phoneme s) ≤ length s)%nat
  ∧ (normalize_phoneme s = []
     ↔ Forall (λ c, c ∈ marks ∨ isspace c = true) s).
Proof.
  unfold normalize_phoneme. rewrite re_sub_class_delete. split.
  - pose proof (length_filter (λ c, c ∉ marks) s) as Hlen.
    set (t := filter (λ c, c ∉ marks) s) in *.
    destruct (strip_split t) as (l & r & Hs & _).
    apply (f_equal length) in Hs. rewrite !length_app in Hs. lia.
  - rewrite strip_nil_iff. induction s as [|c s IH]; [by split|].
    rewrite filter_cons, Forall_cons. destruct (decide (c ∉ marks)) as [Hc|Hc].
    + simpl. rewrite andb_true_iff, IH. split.
      * intros [? ?]. split; [by right|done].
      * intros [[?|?] ?]; [done|by split].
    + rewrite IH. split; [|by intros [_ ?]].
      intros ?. split; [|done]. left. by apply dec_stable.
Qed.

(** ** More on the chakra mapper *)

(** X6. Mapping a concatenation is mapping the parts: the records and the
    chakras of [ps ++ qs] are those of [ps] followed by those of [qs]. *)
Theorem map_phonemes_app (m : gmap (list N) (list N)) (ps qs : list str) :
  map_phonemes_to_chakras m (ps ++ qs)
  = ((map_phonemes_to_chakras m ps).1 ++ (map_phonemes_to_chakras m qs).1,
     (map_phonemes_to_chakras m ps).2 ++ (map_phonemes_to_chakras m qs).2).
Proof.
  rewrite !map_phonemes_to_chakras_eq. cbn [fst snd].
  by rewrite fmap_app, omap_app.
Qed.

(** X7. The two results agree: every record holds the table entry of its
    normalized phoneme, or "Not found" when there is none, and the chakra
    list is read off the records, one chakra for each record whose
    normalized phoneme is a key of the table. *)
Theorem map_phonemes_results_agree
    (m : gmap (list N) (list N)) (phonemes : list str) :
  let '(matched_phonemes, chakras) := map_phonemes_to_chakras m phonemes in
  Forall (λ r : MatchRecord, r.2 = default not_found (m !! r.1.2))
    matched_phonemes
  ∧ chakras = omap (λ r : MatchRecord, m !! r.1.2) matched_phonemes.
Proof.
  rewrite map_phonemes_to_chakras_eq. split.
  - apply Forall_fmap, Forall_true. by intros p.
  - induction phonemes as [|p ps IH]; [done|].
    rewrite fmap_cons. unfold omap in *. simpl list_omap.
    by rewrite IH.
Qed.

(** X8. There are never more chakras than phonemes, and every chakra of the
    list is the table entry of the normal form of some input phoneme. *)
Theorem map_phonemes_chakras_bound
    (m : gmap (list N) (list N)) (phonemes : list str) :
  (length (map_phonemes_to_chakras m phonemes).2 ≤ length phonemes)%nat
  ∧ Forall (λ chakra, ∃ p, p ∈ phonemes ∧ m !! normalize_phoneme p = Some chakra)
      (map_phonemes_to_chakras m phonemes).2.
Proof.
  rewrite map_phonemes_to_chakras_eq. cbn [snd]. split.
  - rewrite omap_lookup_filter, length_fmap. apply length_filter.
  - apply Forall_forall. intros chakra Hc.
    by apply list_elem_of_omap in Hc.
Qed.

Lemma omap_lookup_normalized (m : gmap (list N) (list N)) (ps : list str) :
  omap (λ p, m !! normalize_phoneme p) ps
  = omap (m !!.) (normalize_phoneme <$> ps).
Proof.
  induction ps as [|p ps IH]; [done|].
  rewrite fmap_cons. unfold omap in *. simpl list_omap. by rewrite IH.
Qed.

(** X9. The chakra list depends on the phonemes through their normal forms
    only: two inputs with the same normal forms, position by position, get
    the same chakras. Feeding the mapper phonemes that are normalized
    already changes nothing. *)
Theorem map_phonemes_normal_forms
    (m : gmap (list N) (list N)) (ps qs : list str) :
  normalize_phoneme <$> ps = normalize_phoneme <$> qs →
  (map_phonemes_to_chakras m ps).2 = (map_phonemes_to_chakras m qs).2
  ∧ (map_phonemes_to_chakras m (normalize_phoneme <$> ps)).2
    = (map_phonemes_to_chakras m ps).2.
Proof.
  intros Heq. rewrite !map_phonemes_to_chakras_eq. cbn [snd].
  rewrite !omap_lookup_normalized, Heq. split; [done|].
  f_equal. rewrite <- list_fmap_compose. apply list_fmap_ext.
  intros _ p _. simpl. apply clean_fixed, normalize_phoneme_clean.
Qed.

(** The scenario with and without its length marks. *)
Lemma map_phonemes_normal_forms_witness :
  normalize_phoneme <$> mahaan
  = normalize_phoneme <$> [lit "m"; [0x251]; lit "h"; [0x251]; lit "n"]
  ∧ (map_phonemes_to_chakras mahaan_map mahaan).2
    = (map_phonemes_to_chakras mahaan_map
         [lit "m"; [0x251]; lit "h"; [0x251]; lit "n"]).2.
Proof.
  split; [reflexivity|].
  apply (map_phonemes_normal_forms mahaan_map mahaan
           [lit "m"; [0x251]; lit "h"; [0x251]; lit "n"]).
  reflexivity.
Defined.

(** ** More on the story request *)

Lemma read_story_stripped (posted : outcome response) (story : str) :
  read_story posted = inr story → ∃ text, story = strip text.
Proof.
  destruct posted as [e|r]; [discriminate|].
  destruct (decide (error_status (status_code r))) as [Hs|Hs].
  - by rewrite read_story_error_status.
  - rewrite read_story_passed by done. intros Hb.
    apply read_body_success in Hb as (v & text & _ & _ & ->). by exists text.
Qed.

(** X10. Whatever the inputs and the server are, the string that
    [generate_story] returns is one of the two fixed messages, or
    "Error generating story: " followed by the text of an exception, or a
    stripped text: a story never starts or ends with white space. *)
Theorem generate_story_kinds (rt : runtime) (name : str) (chakras : list str)
    (api_key : str) :
  let story := (generate_story rt name chakras api_key).1 in
  story = lit "No chakras found to generate a story."
  ∨ story = lit "Please provide a valid xAI API key."
  ∨ (∃ e, story = lit "Error generating story: " ++ exn_str rt e)
  ∨ ((∃ text, story = strip text)
     ∧ starts_space story = false ∧ ends_space story = false).
Proof.
  destruct chakras as [|c cs]; [by left|].
  destruct api_key as [|k ks]; [by right; left|].
  right. right. cbn zeta. rewrite generate_story_guarded by done. cbn [fst].
  destruct (read_story _) as [e|story] eqn:Hr.
  - left. by exists e.
  - right. apply read_story_stripped in Hr as [text ->].
    split; [by exists text|]. split; [apply strip_starts|apply strip_ends].
Qed.

(** The requests of a call: one when both guards pass, none otherwise. *)
Lemma generate_story_sent (rt : runtime) (name : str) (chakras : list str)
    (api_key : str) :
  (generate_story rt name chakras api_key).2
  = if decide (chakras ≠ [] ∧ api_key ≠ [])
    then [request_of rt name chakras api_key] else [].
Proof.
  destruct (decide (chakras ≠ [] ∧ api_key ≠ [])) as [[Hc Hk]|Hn].
  - by rewrite generate_story_guarded.
  - destruct chakras as [|c cs]; [done|].
    destruct api_key as [|k ks]; [done|]. exfalso. by apply Hn.
Qed.

(** X11. The prompt names at most as many chakras as the call was given,
    and it holds at most seven description clauses, whatever the chakra
    list is. *)
Theorem prompt_lists_bound (rt : runtime) (chakras : list str) :
  (length (list_of_set rt chakras) ≤ length chakras)%nat
  ∧ (length (omap desc_clause (list_of_set rt chakras)) ≤ 7)%nat.
Proof.
  assert (NoDup (list_of_set rt chakras)) as Hnd.
  { rewrite (list_of_set_perm rt chakras). apply NoDup_remove_dups. }
  split.
  - apply submseteq_length, NoDup_submseteq; [done|].
    intros c. rewrite (list_of_set_perm rt chakras).
    by rewrite elem_of_remove_dups.
  - rewrite omap_desc_clause, length_fmap.
    change 7%nat with (length seven_chakras).
    apply submseteq_length, NoDup_submseteq; [by apply NoDup_filter|].
    intros c Hc. by apply list_elem_of_filter in Hc as [? _].
Qed.

(** ** The page of a run *)

Lemma get_phonemes_shown (phonemize : str → phonemized) (name : str) :
  (get_phonemes phonemize name).1 ≠ [] → (get_phonemes phonemize name).2 = [].
Proof. unfold get_phonemes. by destruct (phonemize name). Qed.

Lemma get_phonemes_nil (phonemize : str → phonemized) (name : str) :
  (get_phonemes phonemize name).1 = []
  ↔ (∃ e, phonemize name = PhonemizeError e)
    ∨ (∃ t, phonemize name = Phonemized t ∧ forallb isspace t = true).
Proof.
  unfold get_phonemes. destruct (phonemize name) as [e|t]; simpl.
  - split; [|done]. intros _. left. by exists e.
  - unfold split. rewrite split_from_nil. split.
    + intros [_ Ht]. right. by exists t.
    + intros [[e ?]|[t' [[= <-] ?]]]; [discriminate|done].
Qed.

Lemma process_input_idle (rt : runtime) (phonemize : str → phonemized)
    (m : gmap (list N) (list N)) (api_key : str) (clicked : bool) (name : str) :
  clicked = false ∨ name = [] →
  process_input rt phonemize m api_key clicked name = ([], []).
Proof.
  unfold process_input. intros [->| ->]; [done|].
  by rewrite andb_false_r.
Qed.

Lemma process_input_failed (rt : runtime) (phonemize : str → phonemized)
    (m : gmap (list N) (list N)) (api_key name : str) :
  name ≠ [] → (get_phonemes phonemize name).1 = [] →
  process_input rt phonemize m api_key true name
  = (st_spinner (lit "Processing...")
     :: (get_phonemes phonemize name).2 ++ [st_error no_phonemes_message], []).
Proof.
  intros Hn Hp. unfold process_input.
  rewrite bool_decide_eq_false_2 by done. simpl.
  destruct (get_phonemes phonemize name) as [phonemes shown].
  simpl in Hp. by subst phonemes.
Qed.

Lemma process_input_page (rt : runtime) (phonemize : str → phonemized)
    (m : gmap (list N) (list N)) (api_key name : str) :
  name ≠ [] → (get_phonemes phonemize name).1 ≠ [] →
  process_input rt phonemize m api_key true name
  = (story_page (get_phonemes phonemize name).1
       (map_phonemes_to_chakras m (get_phonemes phonemize name).1).1
       (map_phonemes_to_chakras m (get_phonemes phonemize name).1).2
       (generate_story rt name
          (map_phonemes_to_chakras m (get_phonemes phonemize name).1).2
          api_key).1,
     (generate_story rt name
        (map_phonemes_to_chakras m (get_phonemes phonemize name).1).2
        api_key).2).
Proof.
  intros Hn Hp. unfold process_input.
  rewrite bool_decide_eq_false_2 by done. cbn [andb negb].
  pose proof (get_phonemes_shown phonemize name Hp) as Hs.
  destruct (get_phonemes phonemize name) as [phonemes shown].
  cbn [fst snd] in *. subst shown.
  destruct phonemes as [|p ps]; [done|].
  destruct (map_phonemes_to_chakras m (p :: ps)) as [matched chakras].
  cbn [fst snd].
  destruct (generate_story rt name chakras api_key) as [story sent].
  reflexivity.
Qed.

(** The messages of a page with phonemes: the warning when no chakra was
    found, and the story. *)
Lemma story_page_messages (phonemes : list str) (matched : list MatchRecord)
    (chakras : list str) (story : str) (x : ui) :
  is_message x = true →
  x ∈ story_page phonemes matched chakras story
  ↔ (chakras = [] ∧ x = st_warning no_match_message) ∨ x = st_markdown story.
Proof.
  intros Hx. unfold story_page.
  rewrite elem_of_cons, elem_of_app, elem_of_app, list_elem_of_fmap.
  rewrite !elem_of_cons, !elem_of_nil. split.
  - intros [->|[[->|[->|[->|[]]]]|[(r & -> & _)|[->|[->|[->|[->|[]]]]]]]];
      try discriminate Hx.
    + by destruct r as [[? ?] ?].
    + destruct chakras; [by left|discriminate Hx].
    + by right.
  - intros [[-> ->]| ->]; right; right; right; right; [by left|].
    right. right. by left.
Qed.

Lemma story_page_last (phonemes : list str) (matched : list MatchRecord)
    (chakras : list str) (story : str) :
  last (story_page phonemes matched chakras story) = Some (st_markdown story).
Proof.
  unfold story_page.
  rewrite last_cons, last_app, last_app. reflexivity.
Qed.

Lemma chakras_nil_iff (m : gmap (list N) (list N)) (phonemes : list str) :
  (map_phonemes_to_chakras m phonemes).2 = []
  ↔ Forall (λ p, m !! normalize_phoneme p = None) phonemes.
Proof.
  rewrite map_phonemes_to_chakras_eq. cbn [snd].
  induction phonemes as [|p ps IH]; [by split|].
  rewrite Forall_cons. unfold omap in *. simpl list_omap.
  destruct (m !! normalize_phoneme p) as [c|].
  - split; [done|]. by intros [? _].
  - rewrite IH. split; [by split|]. by intros [_ ?].
Qed.

(** The three shapes of a run. *)
Lemma process_input_cases (rt : runtime) (phonemize : str → phonemized)
    (m : gmap (list N) (list N)) (api_key : str) (clicked : bool) (name : str) :
  ((clicked = false ∨ name = [])
   ∧ process_input rt phonemize m api_key clicked name = ([], []))
  ∨ (clicked = true ∧ name ≠ [] ∧ (get_phonemes phonemize name).1 = []
     ∧ process_input rt phonemize m api_key clicked name
       = (st_spinner (lit "Processing...")
          :: (get_phonemes phonemize name).2 ++ [st_error no_phonemes_message],
          []))
  ∨ (clicked = true ∧ name ≠ [] ∧ (get_phonemes phonemize name).1 ≠ []
     ∧ process_input rt phonemize m api_key clicked name
       = (story_page (get_phonemes phonemize name).1
            (map_phonemes_to_chakras m (get_phonemes phonemize name).1).1
            (map_phonemes_to_chakras m (get_phonemes phonemize name).1).2
            (generate_story rt name
               (map_phonemes_to_chakras m (get_phonemes phonemize name).1).2
               api_key).1,
          (generate_story rt name
             (map_phonemes_to_chakras m (get_phonemes phonemize name).1).2
             api_key).2)).
Proof.
  destruct clicked.
  - destruct (decide (name = [])) as [Hn|Hn].
    + left. split; [by right|]. apply process_input_idle. by right.
    + destruct (decide ((get_phonemes phonemize name).1 = [])) as [Hp|Hp].
      * right. left. repeat (split; [done|]). by apply process_input_failed.
      * right. right. repeat (split; [done|]). by apply process_input_page.
  - left. split; [by left|]. apply process_input_idle. by left.
Qed.

(** X12. A run sends at most one request, and it sends one exactly when the
    button was clicked, the name and the key are not empty, and the normal
    form of some extracted phoneme is a key of the table. The page stays
    empty exactly when the button was not clicked or the name is empty. *)
Theorem process_input_requests (rt : runtime) (phonemize : str → phonemized)
    (m : gmap (list N) (list N)) (api_key : str) (clicked : bool) (name : str) :
  let out := process_input rt phonemize m api_key clicked name in
  (length out.2 ≤ 1)%nat
  ∧ (out.2 ≠ []
     ↔ clicked = true ∧ name ≠ [] ∧ api_key ≠ []
       ∧ ¬ Forall (λ p, m !! normalize_phoneme p = None)
             (get_phonemes phonemize name).1)
  ∧ (out.1 = [] ↔ clicked = false ∨ name = []).
Proof.
  cbn zeta.
  destruct (process_input_cases rt phonemize m api_key clicked name)
    as [[Hidle ->]|[(-> & Hn & Hp & ->)|(-> & Hn & Hp & ->)]]; cbn [fst snd].
  - split; [simpl; lia|]. split; [|done]. split; [done|].
    intros (Hc & Hn & _). destruct Hidle; congruence.
  - split; [simpl; lia|]. split.
    + split; [done|]. intros (_ & _ & _ & Hex). rewrite Hp in Hex.
      exfalso. apply Hex. constructor.
    + split; [done|]. intros [?|?]; congruence.
  - rewrite generate_story_sent, <- chakras_nil_iff.
    destruct (decide _) as [[Hc Hk]|Hno].
    + split; [simpl; lia|]. split; [by split|].
      split; [done|]. intros [?|?]; congruence.
    + split; [simpl; lia|]. split.
      * split; [done|]. intros (_ & _ & Hk & Hc). exfalso. by apply Hno.
      * split; [done|]. intros [?|?]; congruence.
Qed.

(** X13. The page shows "Could not extract phonemes. Please try another
    name." exactly when the button was clicked with a name and the backend
    raised or gave a transcription of white space only; it is then the last
    thing shown, nothing is mapped and no request is sent. *)
Theorem process_input_no_phonemes (rt : runtime) (phonemize : str → phonemized)
    (m : gmap (list N) (list N)) (api_key : str) (clicked : bool) (name : str) :
  let out := process_input rt phonemize m api_key clicked name in
  (st_error no_phonemes_message ∈ out.1
   ↔ clicked = true ∧ name ≠ []
     ∧ ((∃ e, phonemize name = PhonemizeError e)
        ∨ (∃ t, phonemize name = Phonemized t ∧ forallb isspace t = true)))
  ∧ (st_error no_phonemes_message ∈ out.1 →
     out.2 = [] ∧ last out.1 = Some (st_error no_phonemes_message)
     ∧ Forall (λ x, ∀ text, x ≠ st_write text) out.1).
Proof.
  cbn zeta. rewrite <- get_phonemes_nil.
  destruct (process_input_cases rt phonemize m api_key clicked name)
    as [[Hidle ->]|[(-> & Hn & Hp & ->)|(-> & Hn & Hp & ->)]]; cbn [fst snd].
  - split.
    + split; [by intros ?%elem_of_nil|].
      intros (? & ? & _). destruct Hidle; congruence.
    + by intros ?%elem_of_nil.
  - split.
    + split; [done|]. intros _. right. apply elem_of_app. right. by left.
    + intros _. split; [done|]. split.
      * by rewrite last_cons, last_snoc.
      * constructor; [done|]. apply Forall_app. split; [|by repeat constructor].
        unfold get_phonemes. destruct (phonemize name); by repeat constructor.
  - split.
    + split; [|by intros (_ & _ & ?)].
      intros Hin. apply story_page_messages in Hin as [[_ ?]|?]; done.
    + intros Hin. apply story_page_messages in Hin as [[_ ?]|?]; done.
Qed.

(** X14. The page shows "No chakras matched. Story generation may be
    limited." exactly when phonemes were extracted and the normal form of
    none of them is a key of the table; then no request is sent and the page
    ends with the story "No chakras found to generate a story.". *)
Theorem process_input_no_match (rt : runtime) (phonemize : str → phonemized)
    (m : gmap (list N) (list N)) (api_key : str) (clicked : bool) (name : str) :
  let out := process_input rt phonemize m api_key clicked name in
  (st_warning no_match_message ∈ out.1
   ↔ clicked = true ∧ name ≠ [] ∧ (get_phonemes phonemize name).1 ≠ []
     ∧ Forall (λ p, m !! normalize_phoneme p = None)
         (get_phonemes phonemize name).1)
  ∧ (st_warning no_match_message ∈ out.1 →
     out.2 = []
     ∧ last out.1
       = Some (st_markdown (lit "No chakras found to generate a story."))).
Proof.
  cbn zeta.
  destruct (process_input_cases rt phonemize m api_key clicked name)
    as [[Hidle ->]|[(-> & Hn & Hp & ->)|(-> & Hn & Hp & ->)]]; cbn [fst snd].
  - split.
    + split; [by intros ?%elem_of_nil|].
      intros (? & ? & _). destruct Hidle; congruence.
    + by intros ?%elem_of_nil.
  - assert (st_warning no_match_message
            ∉ st_spinner (lit "Processing...")
              :: (get_phonemes phonemize name).2
                 ++ [st_error no_phonemes_message]) as Hnot.
    { rewrite elem_of_cons, elem_of_app, list_elem_of_singleton.
      intros [?|[Hin|?]]; [done| |done].
      unfold get_phonemes in Hin. destruct (phonemize name); simpl in Hin.
      - by apply list_elem_of_singleton in Hin.
      - by apply elem_of_nil in Hin. }
    split; [|done]. split; [done|]. by intros (_ & _ & ? & _).
  - rewrite <- chakras_nil_iff. rewrite story_page_messages by done. split.
    + split.
      * intros [[Hc _]|?]; done.
      * intros (_ & _ & _ & Hc). by left.
    + intros [[Hc _]|?]; [|done]. rewrite story_page_last, Hc.
      by destruct api_key.
Qed.

(** X15. When the table file is missing, [load_phoneme_data] yields the
    empty table, and with that table no run sends a request: whenever a
    story is shown it is "No chakras found to generate a story.", under the
    warning that no chakra matched. *)
Theorem process_input_missing_file (rt : runtime) (phonemize : str → phonemized)
    (table : gmap (list N) (list N)) (api_key : str) (clicked : bool)
    (name : str) :
  (load_phoneme_data FileNotFoundError).1 = inr table →
  let out := process_input rt phonemize table api_key clicked name in
  out.2 = []
  ∧ (∀ story, st_markdown story ∈ out.1 →
       story = lit "No chakras found to generate a story."
       ∧ st_warning no_match_message ∈ out.1).
Proof.
  intros [= <-]. cbn zeta.
  destruct (process_input_cases rt phonemize ∅ api_key clicked name)
    as [[Hidle ->]|[(-> & Hn & Hp & ->)|(-> & Hn & Hp & ->)]]; cbn [fst snd].
  - split; [done|]. by intros story ?%elem_of_nil.
  - split; [done|]. intros story.
    rewrite elem_of_cons, elem_of_app, list_elem_of_singleton.
    intros [?|[Hin|?]]; [done| |done].
    unfold get_phonemes in Hin. destruct (phonemize name); simpl in Hin.
    + by apply list_elem_of_singleton in Hin.
    + by apply elem_of_nil in Hin.
  - assert ((map_phonemes_to_chakras ∅ (get_phonemes phonemize name).1).2 = [])
      as Hc.
    { apply chakras_nil_iff, Forall_true. intros p. apply lookup_empty. }
    rewrite Hc. split; [done|]. intros story.
    rewrite !story_page_messages by done.
    intros [[_ ?]|[= ->]]; [done|]. split; [done|]. by left.
Qed.

(** A run with the scenario's transcription and no table file. *)
Lemma process_input_missing_file_witness :
  (load_phoneme_data FileNotFoundError).1 = inr ∅
  ∧ (process_input (runtime_of story_server exn_text)
       (fixed_backend (Phonemized (join (lit " ") mahaan))) ∅
       (lit "secret") true (lit "Mahaan")).2 = [].
Proof.
  split; [reflexivity|].
  apply (process_input_missing_file (runtime_of story_server exn_text)
           (fixed_backend (Phonemized (join (lit " ") mahaan))) ∅
           (lit "secret") true (lit "Mahaan")).
  reflexivity.
Defined.

(** X16. The whole pipeline. When the backend transcribes the name as words
    separated by single spaces, the words are the phonemes; if the table
    knows one of them and the key is not empty, the run sends exactly the
    story request for the chakras of these words, and the page ends with
    what [generate_story] returns for them. *)
Theorem process_input_pipeline (rt : runtime) (phonemize : str → phonemized)
    (m : gmap (list N) (list N)) (api_key name : str) (words : list str) :
  name ≠ [] → api_key ≠ [] →
  Forall is_word words →
  phonemize name = Phonemized (join (lit " ") words) →
  (map_phonemes_to_chakras m words).2 ≠ [] →
  let out := process_input rt phonemize m api_key true name in
  let chakras := (map_phonemes_to_chakras m words).2 in
  (get_phonemes phonemize name).1 = words
  ∧ out.2 = [story_request api_key (build_prompt name (list_of_set rt chakras))]
  ∧ last out.1 = Some (st_markdown (generate_story rt name chakras api_key).1).
Proof.
  intros Hn Hk Hw Hph Hc. cbn zeta.
  assert ((get_phonemes phonemize name).1 = words) as Hwords.
  { unfold get_phonemes. rewrite Hph. cbn [fst]. unfold split.
    destruct words as [|p words]; [reflexivity|]. by apply split_join_words. }
  split; [exact Hwords|].
  assert (words ≠ []) as Hne.
  { intros ->. by apply Hc. }
  rewrite process_input_page by (done || by rewrite Hwords).
  cbn [fst snd]. rewrite Hwords. split.
  - by rewrite generate_story_guarded.
  - apply story_page_last.
Qed.

(** The scenario, with the server that answers with a story. *)
Lemma process_input_pipeline_witness :
  let out :=
    process_input (runtime_of story_server exn_text)
      (fixed_backend (Phonemized (join (lit " ") mahaan))) mahaan_map
      (lit "secret") true (lit "Mahaan") in
  length out.2 = 1%nat
  ∧ last out.1 = Some (st_markdown (lit "Once upon a time.")).
Proof.
  assert (Forall is_word mahaan) as Hw.
  { repeat constructor; discriminate. }
  destruct (process_input_pipeline (runtime_of story_server exn_text)
              (fixed_backend (Phonemized (join (lit " ") mahaan))) mahaan_map
              (lit "secret") (lit "Mahaan") mahaan)
    as (_ & Hsent & Hlast); [discriminate | discriminate | exact Hw
                             | reflexivity | vm_compute; discriminate |].
  intros out. subst out. rewrite Hsent, Hlast. split; reflexivity.
Defined.
